(** * Cache_Server: the transactional key-value store of [Cache_Mj.py]

    A shallow embedding of class [KeyValueStore] and of one iteration of
    the loop of [handle_client], followed by the properties that the
    specification states about them; then [simulate_store_operations]
    and the threads of the main block, and further properties of all of
    these.

    Modelling choices, all read off the source:
    - [self.store] and every per-thread transaction are Python dicts with
      string keys; they are [gmap string pyval].  [self.transactions] is a
      dict keyed by [threading.get_ident()], a [gmap nat] here.
    - Every method body runs under [with self.lock], so one method call is
      one atomic step: a function from the state before to the response
      and the state after.  The calling thread's identity is the explicit
      argument [thread_id].
    - A response is the Python dict the method returns.
    - Of [handle_client], the socket is left out: one loop iteration takes
      the decoded text and yields what the loop does next (leave, go on,
      or send a response).  Faults of [recv], [decode] and [sendall] are
      outside the model. *)

From Stdlib Require Import Ascii String.
From stdpp Require Import gmap strings list fin_maps pretty.

Local Open Scope string_scope.

(** ** Data model *)

(** The values the store holds.  The protocol handler only ever passes
    [str] values, but the methods accept any object and [delete] and
    [commit_transaction] give [None] a meaning of its own. *)
Inductive pyval : Type :=
  | PyNone
  | PyStr (s : string).

Global Instance pyval_eq_dec : EqDecision pyval.
Proof. solve_decision. Defined.

(** The three shapes of dict the methods return:
    [{"status": "Ok"}], [{"status": "Ok", "result": v}] and
    [{"status": "Error", "mesg": m}]. *)
Inductive response : Type :=
  | RespOk
  | RespResult (result : pyval)
  | RespError (mesg : string).

Global Instance response_eq_dec : EqDecision response.
Proof. solve_decision. Defined.

(** The ["status"] field of a response. *)
Definition status (r : response) : string :=
  match r with
  | RespOk | RespResult _ => "Ok"
  | RespError _ => "Error"
  end.

Definition is_error (r : response) : bool :=
  match r with
  | RespError _ => true
  | _ => false
  end.

(** The object state: [self.store] and [self.transactions]. *)
Record KeyValueStore : Type := mkKV {
  store : gmap string pyval;
  transactions : gmap nat (gmap string pyval)
}.

(** [KeyValueStore.__init__] *)
Definition init : KeyValueStore := mkKV ∅ ∅.

(** ** The methods of [KeyValueStore] *)

(** [KeyValueStore.put] *)
Definition put (thread_id : nat) (key : string) (value : pyval)
    (self : KeyValueStore) : response * KeyValueStore :=
  match transactions self !! thread_id with
  | Some txn =>
      (RespOk,
       mkKV (store self)
            (<[thread_id := <[key := value]> txn]> (transactions self)))
  | None =>
      (RespOk, mkKV (<[key := value]> (store self)) (transactions self))
  end.

(** The message of a failed lookup, [f"Key '{key}' not found."]. *)
Definition not_found_mesg (key : string) : string :=
  "Key '" +:+ key +:+ "' not found.".

(** The last two branches of [get]: the committed store. *)
Definition store_get (key : string) (self : KeyValueStore) : response :=
  match store self !! key with
  | Some v => RespResult v
  | None => RespError (not_found_mesg key)
  end.

(** [KeyValueStore.get] *)
Definition get (thread_id : nat) (key : string)
    (self : KeyValueStore) : response * KeyValueStore :=
  (match transactions self !! thread_id with
   | Some txn =>
       match txn !! key with
       | Some v => RespResult v
       | None => store_get key self
       end
   | None => store_get key self
   end, self).

(** [if key in d: del d[key]] *)
Definition del_if_present (key : string)
    (d : gmap string pyval) : gmap string pyval :=
  match d !! key with
  | Some _ => base.delete key d
  | None => d
  end.

(** [KeyValueStore.delete] *)
Definition delete (thread_id : nat) (key : string)
    (self : KeyValueStore) : response * KeyValueStore :=
  match transactions self !! thread_id with
  | Some txn =>
      (RespOk,
       mkKV (store self)
            (<[thread_id := <[key := PyNone]> txn]> (transactions self)))
  | None =>
      (RespOk, mkKV (del_if_present key (store self)) (transactions self))
  end.

(** [KeyValueStore.start_transaction] *)
Definition start_transaction (thread_id : nat)
    (self : KeyValueStore) : response * KeyValueStore :=
  match transactions self !! thread_id with
  | Some _ => (RespError "Transaction already active.", self)
  | None =>
      (RespOk, mkKV (store self) (<[thread_id := ∅]> (transactions self)))
  end.

(** The body of the [for key, value in ....items()] loop of
    [commit_transaction]. *)
Definition apply_item (st : gmap string pyval)
    (item : string * pyval) : gmap string pyval :=
  match item.2 with
  | PyNone => del_if_present item.1 st
  | PyStr _ => <[item.1 := item.2]> st
  end.

(** The loop itself, over the items in iteration order. *)
Definition apply_items (items : list (string * pyval))
    (st : gmap string pyval) : gmap string pyval :=
  fold_left apply_item items st.

(** [KeyValueStore.commit_transaction].  The keys of a dict are pairwise
    distinct, so the order in which [items()] yields them cannot be
    observed in the resulting store ([apply_items_Permutation] below). *)
Definition commit_transaction (thread_id : nat)
    (self : KeyValueStore) : response * KeyValueStore :=
  match transactions self !! thread_id with
  | None => (RespError "No active transaction.", self)
  | Some txn =>
      (RespOk,
       mkKV (apply_items (map_to_list txn) (store self))
            (base.delete thread_id (transactions self)))
  end.

(** [KeyValueStore.rollback_transaction] *)
Definition rollback_transaction (thread_id : nat)
    (self : KeyValueStore) : response * KeyValueStore :=
  match transactions self !! thread_id with
  | None => (RespError "No active transaction.", self)
  | Some _ =>
      (RespOk,
       mkKV (store self) (base.delete thread_id (transactions self)))
  end.

(** The session states of the specification. *)
Definition active (thread_id : nat) (self : KeyValueStore) : Prop :=
  is_Some (transactions self !! thread_id).

Definition idle (thread_id : nat) (self : KeyValueStore) : Prop :=
  transactions self !! thread_id = None.

(** A method call as data, for statements that range over all six
    operations or over sequences of them. *)
Inductive call : Type :=
  | Put (key : string) (value : pyval)
  | Get (key : string)
  | Del (key : string)
  | Start
  | Commit
  | Rollback.

Definition run (thread_id : nat) (c : call)
    (self : KeyValueStore) : response * KeyValueStore :=
  match c with
  | Put key value => put thread_id key value self
  | Get key => get thread_id key self
  | Del key => delete thread_id key self
  | Start => start_transaction thread_id self
  | Commit => commit_transaction thread_id self
  | Rollback => rollback_transaction thread_id self
  end.

(** The state after a sequence of calls made by one thread. *)
Definition run_all (thread_id : nat) (cs : list call)
    (self : KeyValueStore) : KeyValueStore :=
  fold_left (λ s c, (run thread_id c s).2) cs self.

(** The calls that keep an open transaction open. *)
Definition buffers (c : call) : bool :=
  match c with
  | Commit | Rollback => false
  | _ => true
  end.

(** ** The protocol handler *)

(** A Python expression either yields a value or raises; what the
    [except Exception as e] clause of [handle_client] sees of an exception
    is [str(e)]. *)
Inductive outcome (A : Type) : Type :=
  | Returned (a : A)
  | Raised (mesg : string).
Arguments Returned {A} a.
Arguments Raised {A} mesg.

(** Computations over the shared store that may raise. *)
Definition py (A : Type) : Type :=
  KeyValueStore → outcome A * KeyValueStore.

Definition py_ret {A} (a : A) : py A := λ s, (Returned a, s).

Definition py_bind {A B} (m : py A) (k : A → py B) : py B :=
  λ s, match m s with
       | (Returned a, s') => k a s'
       | (Raised e, s') => (Raised e, s')
       end.

Notation "'let!' x ':=' m 'in' k" := (py_bind m (λ x, k))
  (at level 10, x name, m at level 100, k at level 200, only parsing).

(** [l[i]] for a non-negative literal [i]; out of range it raises
    [IndexError("list index out of range")]. *)
Definition index {A} (l : list A) (i : nat) : py A :=
  λ s, match l !! i with
       | Some x => (Returned x, s)
       | None => (Raised "list index out of range", s)
       end.

(** A call of a store method; the methods themselves never raise. *)
Definition invoke (m : KeyValueStore → response * KeyValueStore)
    : py response :=
  λ s, let '(r, s') := m s in (Returned r, s').

(** What one pass through the [while True] body does next. *)
Inductive loop_step : Type :=
  | Break
  | Continue
  | Send (r : response).

Section Protocol.

(** [str.strip], [str.split] (no argument) and [str.upper] are Python
    built-ins; the handler is embedded over any functions in their
    place.  [ascii_strip], [ascii_split] and [ascii_upper] below are
    what they compute on ASCII text. *)
Variable strip : string → string.
Variable split : string → list string.
Variable upper : string → string.

(** The [if command == ... elif ...] chain of [handle_client]. *)
Definition dispatch (command_parts : list string)
    (thread_id : nat) : py response :=
  let! c := index command_parts 0 in
  let command := upper c in
  if decide (command = "PUT") then
    let! key := index command_parts 1 in
    let value := String.concat " " (drop 2 command_parts) in
    invoke (put thread_id key (PyStr value))
  else if decide (command = "GET") then
    let! key := index command_parts 1 in
    invoke (get thread_id key)
  else if decide (command = "DEL") then
    let! key := index command_parts 1 in
    invoke (delete thread_id key)
  else if decide (command = "START") then
    invoke (start_transaction thread_id)
  else if decide (command = "COMMIT") then
    invoke (commit_transaction thread_id)
  else if decide (command = "ROLLBACK") then
    invoke (rollback_transaction thread_id)
  else
    py_ret (RespError "Unknown command.").

(** One iteration of the loop of [handle_client] on the text [received]
    ([client_socket.recv(1024).decode('utf-8')]), run by the thread
    [thread_id]: the [try] body and its [except] clause. *)
Definition handle_client (received : string) (thread_id : nat)
    (self : KeyValueStore) : loop_step * KeyValueStore :=
  let data := strip received in
  if decide (data = "") then (Break, self)
  else
    let command_parts := split data in
    match command_parts with
    | [] => (Continue, self)
    | _ :: _ =>
        match dispatch command_parts thread_id self with
        | (Returned response, s) => (Send response, s)
        | (Raised e, s) => (Send (RespError e), s)
        end
    end.

(** The command keywords. *)
Definition keywords : list string :=
  ["PUT"; "GET"; "DEL"; "START"; "COMMIT"; "ROLLBACK"].

(** A command whose key is missing: [PUT], [GET] or [DEL] alone. *)
Definition missing_key (command_parts : list string) : bool :=
  match command_parts with
  | [c] => bool_decide (upper c ∈ ["PUT"; "GET"; "DEL"])
  | _ => false
  end.

(** [PUT key] with no value token after the key. *)
Definition missing_value (command_parts : list string) : bool :=
  match command_parts with
  | [c; _] => bool_decide (upper c = "PUT")
  | _ => false
  end.

(** A first token that is none of the keywords. *)
Definition unrecognized (command_parts : list string) : bool :=
  match command_parts with
  | c :: _ => bool_decide (upper c ∉ keywords)
  | [] => false
  end.

End Protocol.

(** *** The built-ins on ASCII text *)

(** [str.isspace] on the ASCII range: TAB, LF, VT, FF, CR, the four
    separators FS, GS, RS, US, and the space. *)
Definition isspace (a : ascii) : bool :=
  let n := nat_of_ascii a in
  ((9 <=? n)%nat && (n <=? 13)%nat) || ((28 <=? n)%nat && (n <=? 32)%nat).

Fixpoint lstrip (s : string) : string :=
  match s with
  | String a s' => if isspace a then lstrip s' else s
  | EmptyString => EmptyString
  end.

Definition ascii_strip (s : string) : string :=
  String.rev (lstrip (String.rev (lstrip s))).

(** [split_go s word] splits [s] at runs of white space; [word] holds the
    characters of the current token, last one first. *)
Fixpoint split_go (s : string) (word : string) : list string :=
  match s with
  | EmptyString =>
      match word with
      | EmptyString => []
      | _ => [String.rev word]
      end
  | String a s' =>
      if isspace a then
        match word with
        | EmptyString => split_go s' EmptyString
        | _ => String.rev word :: split_go s' EmptyString
        end
      else split_go s' (String a word)
  end.

Definition ascii_split (s : string) : list string := split_go s EmptyString.

Definition upper_char (a : ascii) : ascii :=
  let n := nat_of_ascii a in
  if (97 <=? n)%nat && (n <=? 122)%nat then ascii_of_nat (n - 32) else a.

Fixpoint ascii_upper (s : string) : string :=
  match s with
  | EmptyString => EmptyString
  | String a s' => String (upper_char a) (ascii_upper s')
  end.

(** The handler with the ASCII built-ins. *)
Definition serve : string → nat → KeyValueStore → loop_step * KeyValueStore :=
  handle_client ascii_strip ascii_split ascii_upper.

(** * Properties *)

(** ** The commit loop *)

(** What a reader sees at [key] once the overlay [txn] has been applied
    to the store [st]: a [None] entry removes the key, any other entry
    replaces the value, a key without an entry keeps its value. *)
Definition merged (txn st : gmap string pyval) (key : string) : option pyval :=
  match txn !! key with
  | Some PyNone => None
  | Some (PyStr v) => Some (PyStr v)
  | None => st !! key
  end.

Lemma del_if_present_delete key (d : gmap string pyval) :
  del_if_present key d = base.delete key d.
Proof.
  unfold del_if_present. destruct (d !! key) eqn:E; [done|].
  by rewrite delete_id.
Qed.

Lemma apply_item_lookup_eq (st : gmap string pyval) key v :
  apply_item st (key, v) !! key = merged {[key := v]} st key.
Proof.
  unfold apply_item, merged. rewrite lookup_singleton_eq. simpl.
  destruct v.
  - by rewrite del_if_present_delete, lookup_delete_eq.
  - by rewrite lookup_insert_eq.
Qed.

Lemma apply_item_lookup_ne (st : gmap string pyval) item key :
  item.1 ≠ key → apply_item st item !! key = st !! key.
Proof.
  intros Hne. unfold apply_item. destruct (item.2).
  - by rewrite del_if_present_delete, lookup_delete_ne.
  - by rewrite lookup_insert_ne.
Qed.

(** The loop computes [merged], whatever the order of the items, as long
    as no key occurs twice. *)
Lemma apply_items_lookup items (st : gmap string pyval) key :
  NoDup items.*1 →
  apply_items items st !! key = merged (list_to_map items) st key.
Proof.
  revert st. induction items as [|[k v] items IH]; intros st Hnd.
  - done.
  - apply NoDup_cons in Hnd as [Hk Hnd].
    change (apply_items ((k, v) :: items) st)
      with (apply_items items (apply_item st (k, v))).
    rewrite (IH _ Hnd). unfold merged.
    rewrite list_to_map_cons.
    destruct (decide (k = key)) as [->|Hne].
    + rewrite (not_elem_of_list_to_map_1 _ _ Hk), lookup_insert_eq.
      rewrite apply_item_lookup_eq. unfold merged.
      rewrite lookup_singleton_eq. by destruct v.
    + rewrite lookup_insert_ne by done.
      destruct (list_to_map items !! key) as [[]|]; [done..|].
      by apply apply_item_lookup_ne.
Qed.

Lemma apply_items_Permutation items1 items2 (st : gmap string pyval) :
  NoDup items1.*1 → items1 ≡ₚ items2 →
  apply_items items1 st = apply_items items2 st.
Proof.
  intros Hnd Hp. apply map_eq. intros key.
  rewrite !apply_items_lookup; [|by rewrite <- Hp|done].
  by rewrite (list_to_map_proper _ _ Hnd Hp).
Qed.

Lemma apply_items_dict (txn st : gmap string pyval) key :
  apply_items (map_to_list txn) st !! key = merged txn st key.
Proof.
  rewrite apply_items_lookup by apply NoDup_fst_map_to_list.
  by rewrite list_to_map_to_list.
Qed.

(** ** Frame lemmas for the six methods *)

Lemma get_state thread_id key self : (get thread_id key self).2 = self.
Proof. done. Qed.

(** The response of [get] is a function of the store and of the caller's
    own overlay. *)
Lemma get_depends thread_id key s1 s2 :
  store s1 = store s2 →
  transactions s1 !! thread_id = transactions s2 !! thread_id →
  (get thread_id key s1).1 = (get thread_id key s2).1.
Proof.
  intros Hst Htx. unfold get, store_get. simpl. by rewrite Hst, Htx.
Qed.

(** Inside an open transaction, a call other than commit and rollback
    leaves the store alone, keeps the transaction open, and does not
    touch the overlay of any other thread. *)
Lemma buffered_call_frame A c self :
  active A self → buffers c = true →
  store (run A c self).2 = store self ∧
  active A (run A c self).2 ∧
  ∀ B, A ≠ B →
    transactions (run A c self).2 !! B = transactions self !! B.
Proof.
  intros [txn Htxn] Hc. unfold active.
  destruct c; simpl in Hc; try discriminate; simpl;
    unfold put, get, delete, start_transaction; rewrite Htxn; simpl.
  - rewrite lookup_insert_eq. split_and!; [done|by eexists|].
    intros B HB. by rewrite lookup_insert_ne.
  - split_and!; [done|by eexists|done].
  - rewrite lookup_insert_eq. split_and!; [done|by eexists|].
    intros B HB. by rewrite lookup_insert_ne.
  - split_and!; [done|by eexists|done].
Qed.

Lemma buffered_calls_frame A cs self :
  active A self → forallb buffers cs = true →
  store (run_all A cs self) = store self ∧
  active A (run_all A cs self) ∧
  ∀ B, A ≠ B →
    transactions (run_all A cs self) !! B = transactions self !! B.
Proof.
  revert self. induction cs as [|c cs IH]; intros self Hact Hcs.
  - done.
  - simpl in Hcs. apply andb_prop in Hcs as [Hc Hcs].
    destruct (buffered_call_frame A c self Hact Hc) as (Hst & Hact' & Htx).
    destruct (IH _ Hact' Hcs) as (Hst2 & Hact2 & Htx2).
    change (run_all A (c :: cs) self) with (run_all A cs (run A c self).2).
    split_and!; [congruence|done|].
    intros B HB. rewrite Htx2 by done. by apply Htx.
Qed.

(** ** Reading inside a transaction *)

(** An overlay entry shadows the store: with an entry for [key] in the
    caller's overlay, [get] answers with that entry, whatever the store
    holds. *)
Lemma get_overlay_entry thread_id key self txn v :
  transactions self !! thread_id = Some txn → txn !! key = Some v →
  get thread_id key self = (RespResult v, self).
Proof. intros Htxn Hv. unfold get. by rewrite Htxn, Hv. Qed.

(** [delete] inside a transaction followed by [get] of the same key: the
    answer is the [None] that [delete] wrote, with status ["Ok"]. *)
Lemma get_after_delete thread_id key self :
  active thread_id self →
  (get thread_id key (delete thread_id key self).2).1 = RespResult PyNone.
Proof.
  intros [txn Htxn]. unfold delete. rewrite Htxn.
  unfold get. simpl. by rewrite !lookup_insert_eq.
Qed.

(** C1, evaluated on the code.  The store holds ["k" ↦ "v"]; thread 1
    starts a transaction, deletes ["k"] and reads it back.  The
    specification asks for the not-found error; [get] returns
    [{"status": "Ok", "result": None}], since it tests only whether the
    key is in the overlay and not whether the entry is the deletion mark
    that [commit_transaction] recognises. *)
Theorem get_of_tombstoned_key_is_ok :
  let s0 := mkKV {["k" := PyStr "v"]} ∅ in
  let s1 := (start_transaction 1 s0).2 in
  let s2 := (delete 1 "k" s1).2 in
  (start_transaction 1 s0).1 = RespOk ∧
  (delete 1 "k" s1).1 = RespOk ∧
  store s2 !! "k" = Some (PyStr "v") ∧
  (get 1 "k" s2).1 = RespResult PyNone ∧
  status (get 1 "k" s2).1 = "Ok" ∧
  (get 1 "k" s2).1 ≠ RespError (not_found_mesg "k") ∧
  (get 1 "k" (commit_transaction 1 s2).2).1 = RespError (not_found_mesg "k").
Proof. vm_compute. split_and!; congruence. Qed.

(** ** Commit *)

(** C2.  With a transaction open, [commit_transaction] answers
    [{"status": "Ok"}]; in the new store every key with a [None] entry in
    the overlay is absent, every key with a value entry holds that value,
    and every other key is as before, whatever order the loop visits the
    entries in; the caller's overlay is removed from the registry (the
    caller is idle again) and nobody else's is touched.  With an empty
    overlay the store is unchanged. *)
Theorem commit_applies_overlay thread_id self txn :
  transactions self !! thread_id = Some txn →
  ∃ self',
    commit_transaction thread_id self = (RespOk, self') ∧
    (∀ key, store self' !! key = merged txn (store self) key) ∧
    (∀ items, items ≡ₚ map_to_list txn →
       store self' = apply_items items (store self)) ∧
    transactions self' = base.delete thread_id (transactions self) ∧
    idle thread_id self' ∧
    (txn = ∅ → store self' = store self).
Proof.
  intros Htxn. unfold commit_transaction. rewrite Htxn.
  eexists. split; [reflexivity|]. simpl. split_and!.
  - intros key. apply apply_items_dict.
  - intros items Hp. symmetry. apply apply_items_Permutation; [|done].
    rewrite Hp. apply NoDup_fst_map_to_list.
  - done.
  - apply lookup_delete_eq.
  - intros ->. by rewrite map_to_list_empty.
Qed.

Lemma commit_applies_overlay_witness :
  ∃ self',
    commit_transaction 1
      (mkKV {["a" := PyStr "old"; "b" := PyStr "keep"]}
            {[1 := {["a" := PyNone; "c" := PyStr "new"]}]})
    = (RespOk, self') ∧
    store self' = {["b" := PyStr "keep"; "c" := PyStr "new"]}.
Proof.
  destruct (commit_applies_overlay 1
      (mkKV {["a" := PyStr "old"; "b" := PyStr "keep"]}
            {[1 := {["a" := PyNone; "c" := PyStr "new"]}]})
      {["a" := PyNone; "c" := PyStr "new"]})
    as (self' & Hc & _).
  - reflexivity.
  - exists self'. split; [exact Hc|].
    vm_compute in Hc. injection Hc as <-. vm_compute. reflexivity.
Defined.

(** ** Isolation *)

(** C3.  For two distinct threads [A] and [B], what [get] answers to [B]
    is a function of the store and of [B]'s own overlay alone: replacing
    [A]'s overlay by any other does not change it, and neither does any
    sequence of calls that [A] makes inside its open transaction short of
    commit and rollback. *)
Theorem get_ignores_other_overlay A B key self :
  A ≠ B →
  (∀ s', store s' = store self →
         transactions s' !! B = transactions self !! B →
         (get B key s').1 = (get B key self).1) ∧
  (∀ txnA,
     (get B key (mkKV (store self) (<[A := txnA]> (transactions self)))).1
     = (get B key self).1) ∧
  (∀ cs, active A self → forallb buffers cs = true →
     (get B key (run_all A cs self)).1 = (get B key self).1).
Proof.
  intros HAB. split_and!.
  - intros s' Hst Htx. by apply get_depends.
  - intros txnA. apply get_depends; simpl; [done|].
    by rewrite lookup_insert_ne.
  - intros cs Hact Hcs.
    destruct (buffered_calls_frame A cs self Hact Hcs) as (Hst & _ & Htx).
    apply get_depends; [done|]. by apply Htx.
Qed.

Lemma get_ignores_other_overlay_witness :
  (get 2 "k"
     (run_all 1 [Put "k" (PyStr "v"); Del "j"; Get "k"]
        (mkKV {["j" := PyStr "w"]} {[1 := ∅]}))).1
  = RespError (not_found_mesg "k").
Proof.
  destruct (get_ignores_other_overlay 1 2 "k"
              (mkKV {["j" := PyStr "w"]} {[1 := ∅]})) as (_ & _ & H).
  - lia.
  - rewrite H.
    + reflexivity.
    + vm_compute. eauto.
    + reflexivity.
Defined.

(** ** Failed calls *)

(** C4.  Whichever of the six methods is called, by whichever thread: if
    the response is an error, the state after the call (store and
    transaction registry) is the state before it. *)
Theorem failed_call_is_noop thread_id c self :
  is_error (run thread_id c self).1 = true →
  (run thread_id c self).2 = self.
Proof.
  destruct c; simpl;
    unfold put, get, delete, start_transaction, commit_transaction,
      rollback_transaction;
    destruct (transactions self !! thread_id); simpl; done.
Qed.

Lemma failed_call_is_noop_witness :
  (run 3 Commit (mkKV {["k" := PyStr "v"]} {[1 := {["k" := PyNone]}]})).2
  = mkKV {["k" := PyStr "v"]} {[1 := {["k" := PyNone]}]}.
Proof.
  apply (failed_call_is_noop 3 Commit
           (mkKV {["k" := PyStr "v"]} {[1 := {["k" := PyNone]}]})).
  reflexivity.
Defined.

(** C5.  For an idle thread [commit_transaction] and
    [rollback_transaction] both answer with the error
    ["No active transaction."] and leave the state as it is; and each of
    the two answers with an error exactly when the thread is idle. *)
Theorem no_active_transaction thread_id self :
  (idle thread_id self →
     commit_transaction thread_id self
       = (RespError "No active transaction.", self) ∧
     rollback_transaction thread_id self
       = (RespError "No active transaction.", self)) ∧
  (is_error (commit_transaction thread_id self).1 = true
     ↔ idle thread_id self) ∧
  (is_error (rollback_transaction thread_id self).1 = true
     ↔ idle thread_id self).
Proof.
  unfold idle, commit_transaction, rollback_transaction.
  destruct (transactions self !! thread_id); simpl; naive_solver.
Qed.

Lemma no_active_transaction_witness :
  commit_transaction 0 init = (RespError "No active transaction.", init) ∧
  rollback_transaction 0 init = (RespError "No active transaction.", init).
Proof.
  apply (no_active_transaction 0 init). reflexivity.
Defined.

(** ** Start *)

(** C6.  For an idle thread [start_transaction] answers
    [{"status": "Ok"}] and registers an empty overlay for it, so that the
    thread is active afterwards.  For a thread that is already active it
    answers with the error ["Transaction already active."] and changes
    nothing: every entry buffered in the overlay is still what [get]
    returns. *)
Theorem start_transaction_spec thread_id self :
  (idle thread_id self →
     ∃ self',
       start_transaction thread_id self = (RespOk, self') ∧
       transactions self' !! thread_id = Some ∅ ∧
       active thread_id self' ∧
       store self' = store self) ∧
  (∀ txn, transactions self !! thread_id = Some txn →
     start_transaction thread_id self
       = (RespError "Transaction already active.", self) ∧
     ∀ key v, txn !! key = Some v →
       (get thread_id key (start_transaction thread_id self).2).1
       = RespResult v).
Proof.
  unfold idle, active. split.
  - intros Hidle. unfold start_transaction. rewrite Hidle.
    eexists. split; [reflexivity|]. simpl.
    rewrite lookup_insert_eq. by split_and!.
  - intros txn Htxn. unfold start_transaction. rewrite Htxn.
    split; [done|]. intros key v Hv.
    unfold get. simpl. by rewrite Htxn, Hv.
Qed.

Lemma start_transaction_spec_witness :
  (∃ self',
     start_transaction 1 init = (RespOk, self') ∧
     transactions self' !! 1 = Some ∅ ∧
     active 1 self' ∧
     store self' = store init) ∧
  (get 1 "k"
     (start_transaction 1 (mkKV ∅ {[1 := {["k" := PyStr "v"]}]})).2).1
  = RespResult (PyStr "v").
Proof.
  split.
  - apply (start_transaction_spec 1 init). reflexivity.
  - apply (proj2 (start_transaction_spec 1
                    (mkKV ∅ {[1 := {["k" := PyStr "v"]}]}))
             {["k" := PyStr "v"]}); reflexivity.
Defined.

(** ** Rollback *)

(** C7.  [rollback_transaction] never changes the store, whether the
    caller is idle or active and whatever its overlay holds. *)
Theorem rollback_preserves_store thread_id self :
  store (rollback_transaction thread_id self).2 = store self.
Proof.
  unfold rollback_transaction.
  by destruct (transactions self !! thread_id).
Qed.

(** ** Put and get outside a transaction *)

(** C8.  For an idle thread, [put key value] answers [{"status": "Ok"}]
    and the [get key] that follows answers
    [{"status": "Ok", "result": value}]. *)
Theorem put_then_get thread_id key value self :
  idle thread_id self →
  ∃ self',
    put thread_id key value self = (RespOk, self') ∧
    get thread_id key self' = (RespResult value, self').
Proof.
  unfold idle. intros Hidle. unfold put. rewrite Hidle.
  eexists. split; [reflexivity|].
  unfold get, store_get. simpl. by rewrite Hidle, lookup_insert_eq.
Qed.

Lemma put_then_get_witness :
  ∃ self',
    put 0 "user1" (PyStr "alice") init = (RespOk, self') ∧
    get 0 "user1" self' = (RespResult (PyStr "alice"), self').
Proof.
  apply (put_then_get 0 "user1" (PyStr "alice") init). reflexivity.
Defined.

(** ** [None] as a value *)

(** C10.  Inside a transaction, [put key None] has exactly the effect of
    [delete key]: the two calls give the same response and the same
    state, and after the commit that follows, [key] is absent from the
    store, where no [None] is stored for it. *)
Theorem put_none_is_delete thread_id key self :
  active thread_id self →
  put thread_id key PyNone self = delete thread_id key self ∧
  store (commit_transaction thread_id
           (put thread_id key PyNone self).2).2 !! key = None.
Proof.
  intros [txn Htxn]. unfold put, delete. rewrite Htxn.
  split; [done|]. simpl.
  unfold commit_transaction. simpl. rewrite lookup_insert_eq. simpl.
  rewrite apply_items_dict. unfold merged.
  by rewrite lookup_insert_eq.
Qed.

Lemma put_none_is_delete_witness :
  put 1 "k" PyNone (mkKV {["k" := PyStr "v"]} {[1 := ∅]})
  = delete 1 "k" (mkKV {["k" := PyStr "v"]} {[1 := ∅]}) ∧
  store (commit_transaction 1
           (put 1 "k" PyNone
              (mkKV {["k" := PyStr "v"]} {[1 := ∅]})).2).2 !! "k" = None.
Proof.
  apply (put_none_is_delete 1 "k" (mkKV {["k" := PyStr "v"]} {[1 := ∅]})).
  vm_compute. eauto.
Defined.

(** ** Malformed commands *)

Section Malformed.

Variable strip : string → string.
Variable split : string → list string.
Variable upper : string → string.

Lemma dispatch_missing_key command_parts thread_id self :
  missing_key upper command_parts = true →
  dispatch upper command_parts thread_id self
  = (Raised "list index out of range", self).
Proof.
  destruct command_parts as [|c [|? ?]]; simpl; try done.
  intros Hc%bool_decide_eq_true.
  unfold dispatch, py_bind, index. simpl.
  rewrite list_elem_of_In in Hc. simpl in Hc.
  repeat case_decide; try done; intuition congruence.
Qed.

Lemma dispatch_unrecognized command_parts thread_id self :
  unrecognized upper command_parts = true →
  dispatch upper command_parts thread_id self
  = (Returned (RespError "Unknown command."), self).
Proof.
  destruct command_parts as [|c args]; simpl; try done.
  intros Hc%bool_decide_eq_true. unfold keywords in Hc.
  unfold dispatch, py_bind, index. simpl.
  rewrite list_elem_of_In in Hc. simpl in Hc.
  repeat case_decide; try done; intuition congruence.
Qed.

(** C9, as the code has it.  A command line whose first token is [PUT],
    [GET] or [DEL] (in any case) and has no second token, or whose first
    token is no keyword, is answered with an error response, and the
    state is left as it was.  The message is [str] of the [IndexError]
    in the first case and ["Unknown command."] in the second. *)
Theorem malformed_command_rejected received thread_id self :
  strip received ≠ "" →
  missing_key upper (split (strip received))
    || unrecognized upper (split (strip received)) = true →
  ∃ mesg,
    handle_client strip split upper received thread_id self
      = (Send (RespError mesg), self) ∧
    (mesg = "list index out of range" ∨ mesg = "Unknown command.").
Proof.
  intros Hdata Hbad. unfold handle_client.
  rewrite decide_False by done.
  destruct (split (strip received)) as [|c args] eqn:Hparts;
    [done|].
  apply orb_prop in Hbad as [Hk|Hu].
  - rewrite dispatch_missing_key by done. eauto.
  - rewrite dispatch_unrecognized by done. eauto.
Qed.

End Malformed.

Lemma malformed_command_rejected_witness :
  (∃ mesg,
     serve "get" 0 init = (Send (RespError mesg), init) ∧
     (mesg = "list index out of range" ∨ mesg = "Unknown command.")) ∧
  (∃ mesg,
     serve "FLUSH all" 0 init = (Send (RespError mesg), init) ∧
     (mesg = "list index out of range" ∨ mesg = "Unknown command.")).
Proof.
  split.
  - apply (malformed_command_rejected
             ascii_strip ascii_split ascii_upper "get" 0 init).
    + vm_compute. congruence.
    + vm_compute. reflexivity.
  - apply (malformed_command_rejected
             ascii_strip ascii_split ascii_upper "FLUSH all" 0 init).
    + vm_compute. congruence.
    + vm_compute. reflexivity.
Defined.

(** C9 as the specification words it also counts [PUT key] with no value
    among the commands answered with an error.  The handler joins the
    tokens after the key, none here, into the empty string, stores it and
    answers [{"status": "Ok"}]. *)
Lemma put_without_value_is_stored :
  ascii_strip "PUT k" ≠ "" ∧
  missing_value ascii_upper (ascii_split (ascii_strip "PUT k")) = true ∧
  serve "PUT k" 0 init = (Send RespOk, mkKV {["k" := PyStr ""]} ∅) ∧
  (serve "PUT k" 0 init).2 ≠ init ∧
  ¬ ∃ mesg, serve "PUT k" 0 init = (Send (RespError mesg), init).
Proof.
  split_and!.
  - vm_compute. congruence.
  - vm_compute. reflexivity.
  - vm_compute. reflexivity.
  - vm_compute. congruence.
  - intros [mesg H]. vm_compute in H. congruence.
Qed.


(** * Further definitions *)

(** ** Notions used in the further properties *)

(** The calls that act alike inside and outside a transaction: reads,
    deletes, and writes of a string.  ([put key None] is kept out: it
    stores [None] when the caller is idle and deletes at commit when it
    is not.) *)
Definition plain (c : call) : bool :=
  match c with
  | Put _ (PyStr _) | Get _ | Del _ => true
  | _ => false
  end.

(** [mirrors thread_id s1 s2]: in [s1] the thread has a transaction open,
    and [s2] is [s1] with that transaction already applied. *)
Definition mirrors (thread_id : nat) (s1 s2 : KeyValueStore) : Prop :=
  ∃ txn,
    transactions s1 !! thread_id = Some txn ∧
    transactions s2 = base.delete thread_id (transactions s1) ∧
    ∀ key, store s2 !! key = merged txn (store s1) key.

(** A dict none of whose values is [None]. *)
Definition no_none (d : gmap string pyval) : Prop :=
  ∀ key, d !! key ≠ Some PyNone.

(** The server at work: requests [(thread, text)] handled one after the
    other, in the order in which their store calls take the lock. *)
Definition handle_all (strip : string → string)
    (split : string → list string) (upper : string → string)
    (requests : list (nat * string))
    (self : KeyValueStore) : KeyValueStore :=
  fold_left (λ s r, (handle_client strip split upper r.2 r.1 s).2)
    requests self.

(** Text made of white space only. *)
Fixpoint all_space (s : string) : bool :=
  match s with
  | EmptyString => true
  | String a s' => isspace a && all_space s'
  end.

(** ** [simulate_store_operations] and the main block *)

(** [f"key_{thread_id}"] and [f"value_{thread_id}"] for the numbers the
    main block passes as [thread_id]. *)
Definition sim_key (thread_id : nat) : string := "key_" +:+ pretty thread_id.
Definition sim_value (thread_id : nat) : string :=
  "value_" +:+ pretty thread_id.

(** The store calls of [simulate_store_operations], in order. *)
Definition simulate_calls (thread_id : nat) : list call :=
  [Start;
   Put (sim_key thread_id) (PyStr (sim_value thread_id));
   Get (sim_key thread_id);
   Commit;
   Del (sim_key thread_id)].

(** [simulate_store_operations(store, thread_id)] run without
    interruption by the thread whose identifier is [ident].  The argument
    [thread_id] only names the key and the value; the store methods take
    the caller's identity from [threading.get_ident()].  The result lists
    the three responses the function prints (of [start_transaction], of
    [get], of [commit_transaction]). *)
Definition simulate_store_operations (ident thread_id : nat)
    (self : KeyValueStore) : list response * KeyValueStore :=
  let key := sim_key thread_id in
  let '(started, s1) := start_transaction ident self in
  let '(_, s2) := put ident key (PyStr (sim_value thread_id)) s1 in
  let '(result, s3) := get ident key s2 in
  let '(committed, s4) := commit_transaction ident s3 in
  let '(_, s5) := delete ident key s4 in
  ([started; result; committed], s5).

(** The threads of the main block.  Each entry of a pool is a thread:
    its identifier and the number of store calls it has made so far;
    thread number [i] of the pool runs [prog i]. *)
Abbreviation pool := (list (nat * nat)).

(** A thread in the middle of its program. *)
Definition in_progress (prog : nat → list call) (j : nat)
    (th : nat * nat) : bool :=
  (0 <? th.2)%nat && (th.2 <? length (prog j))%nat.

(** Whether some thread in the middle of its program has the identifier
    [ident]. *)
Definition ident_busy (prog : nat → list call) (p : pool)
    (ident : nat) : bool :=
  existsb id
    (imap (λ j th, bool_decide (th.1 = ident) && in_progress prog j th) p).

(** Thread [i] makes its next call.  [threading.get_ident()] is unique
    among the threads that are alive, and may be handed out again once a
    thread has ended: a thread makes its first call only if no thread in
    the middle of its program has the same identifier. *)
Definition step_at (prog : nat → list call) (i : nat)
    (cfg : KeyValueStore * pool) : option (KeyValueStore * pool) :=
  match cfg.2 !! i with
  | None => None
  | Some (ident, pc) =>
      match prog i !! pc with
      | None => None
      | Some c =>
          if bool_decide (pc = 0) && ident_busy prog cfg.2 ident then None
          else Some ((run ident c cfg.1).2, <[i := (ident, S pc)]> cfg.2)
      end
  end.

(** A schedule: which thread moves next, step by step. *)
Fixpoint exec (prog : nat → list call) (schedule : list nat)
    (cfg : KeyValueStore * pool) : option (KeyValueStore * pool) :=
  match schedule with
  | [] => Some cfg
  | i :: schedule' =>
      match step_at prog i cfg with
      | None => None
      | Some cfg' => exec prog schedule' cfg'
      end
  end.

(** The main block: one thread per identifier, thread [i] running
    [simulate_store_operations(store, i)] on a fresh store. *)
Definition main_start (idents : list nat) : KeyValueStore * pool :=
  (init, (λ ident, (ident, 0)) <$> idents).

(** All threads have run to their end ([t.join()] returns for each). *)
Definition all_joined (prog : nat → list call) (p : pool) : Prop :=
  ∀ i ident pc, p !! i = Some (ident, pc) → pc = length (prog i).

Local Open Scope nat_scope.

(** What holds of the store and the pool while the threads of the main
    block run; the second component of a pool entry counts the calls of
    [simulate_calls] made: 1 to 3 is inside the transaction, 4 is after
    the commit and before the final [delete]. *)
Definition pool_inv (s : KeyValueStore) (p : pool) : Prop :=
  (∀ i ident pc, p !! i = Some (ident, pc) → pc ≤ 5) ∧
  (∀ key, is_Some (store s !! key) →
     ∃ i ident, p !! i = Some (ident, 4) ∧ key = sim_key i) ∧
  (∀ ident, is_Some (transactions s !! ident) →
     ∃ i pc, p !! i = Some (ident, pc) ∧ 1 ≤ pc ≤ 3) ∧
  (∀ i ident pc, p !! i = Some (ident, pc) → 1 ≤ pc ≤ 3 →
     ∃ txn, transactions s !! ident = Some txn ∧
            ∀ key, is_Some (txn !! key) → key = sim_key i) ∧
  (∀ i j ti pi tj pj,
     i ≠ j → p !! i = Some (ti, pi) → p !! j = Some (tj, pj) →
     1 ≤ pi ≤ 4 → 1 ≤ pj ≤ 4 → ti ≠ tj).

(** * Further properties of the store methods *)

(** ** Shared facts *)

Lemma run_error_state thread_id c self :
  is_error (run thread_id c self).1 = true → (run thread_id c self).2 = self.
Proof.
  destruct c; simpl;
    unfold put, get, delete, start_transaction, commit_transaction,
      rollback_transaction;
    by destruct (transactions self !! thread_id).
Qed.

(** No method touches the overlay of a thread other than its caller. *)
Lemma run_other_overlay A B c self :
  A ≠ B →
  transactions (run B c self).2 !! A = transactions self !! A.
Proof.
  intros HAB.
  destruct c; simpl;
    unfold put, get, delete, start_transaction, commit_transaction,
      rollback_transaction;
    destruct (transactions self !! B); simpl;
    by rewrite ?lookup_insert_ne, ?lookup_delete_ne.
Qed.

(** ** Lookups that fail *)

(** [get] answers with an error exactly when the key is neither in the
    caller's overlay nor in the store, and the error is then the
    not-found message for that key. *)
Theorem get_error_iff thread_id key self :
  (is_error (get thread_id key self).1 = true ↔
     (∀ txn, transactions self !! thread_id = Some txn → txn !! key = None)
     ∧ store self !! key = None) ∧
  (is_error (get thread_id key self).1 = true →
     get thread_id key self = (RespError (not_found_mesg key), self)).
Proof.
  unfold get, store_get. simpl.
  destruct (transactions self !! thread_id) as [txn|] eqn:Htxn.
  - destruct (txn !! key) eqn:Hk; simpl.
    + split; [|done]. split; [done|]. intros [H _].
      specialize (H txn eq_refl). congruence.
    + destruct (store self !! key); simpl.
      * split; [|done]. split; [done|]. by intros [_ ?].
      * split; [|done]. split; [|done]. intros _. split; [|done].
        by intros ? [= <-].
  - destruct (store self !! key); simpl.
    + split; [|done]. split; [done|]. by intros [_ ?].
    + split; [|done]. split; [|done]. intros _. by split.
Qed.

Lemma get_error_iff_witness :
  get 0 "missing" (mkKV {["user1" := PyStr "alice"]} ∅)
  = (RespError "Key 'missing' not found.",
     mkKV {["user1" := PyStr "alice"]} ∅).
Proof.
  apply (get_error_iff 0 "missing" (mkKV {["user1" := PyStr "alice"]} ∅)).
  reflexivity.
Defined.

(** ** Delete outside a transaction *)

(** For an idle thread [delete] answers [{"status": "Ok"}] whether or not
    the key is there.  Afterwards the key is gone and [get] reports it as
    not found, every other key keeps its value, and a second [delete] of
    the same key changes nothing; if the key was absent to begin with,
    the first one changes nothing either. *)
Theorem delete_idle thread_id key self :
  idle thread_id self →
  ∃ self',
    delete thread_id key self = (RespOk, self') ∧
    get thread_id key self' = (RespError (not_found_mesg key), self') ∧
    (∀ k, k ≠ key → store self' !! k = store self !! k) ∧
    transactions self' = transactions self ∧
    delete thread_id key self' = (RespOk, self') ∧
    (store self !! key = None → self' = self).
Proof.
  unfold idle. intros Hidle. unfold delete. rewrite Hidle.
  eexists. split; [reflexivity|]. simpl. rewrite Hidle.
  rewrite del_if_present_delete.
  assert (Hgone : base.delete key (store self) !! key = None)
    by apply lookup_delete_eq.
  split_and!.
  - unfold get, store_get. simpl. by rewrite Hidle, Hgone.
  - intros k Hk. by rewrite lookup_delete_ne.
  - done.
  - unfold del_if_present. by rewrite Hgone.
  - intros Habs. rewrite delete_id by done. by destruct self.
Qed.

Lemma delete_idle_witness :
  ∃ self',
    delete 0 "k" init = (RespOk, self') ∧
    get 0 "k" self' = (RespError (not_found_mesg "k"), self') ∧
    (∀ k, k ≠ "k" → store self' !! k = store init !! k) ∧
    transactions self' = transactions init ∧
    delete 0 "k" self' = (RespOk, self') ∧
    (store init !! "k" = None → self' = init).
Proof. apply (delete_idle 0 "k" init). reflexivity. Defined.

(** ** Writes inside a transaction *)

(** Inside a transaction [put] buffers the value: the store is left as it
    is, and the caller's next [get] of the key returns the value just
    written, whatever the store or the overlay held for it before. *)
Theorem read_your_writes thread_id key value self :
  active thread_id self →
  ∃ self',
    put thread_id key value self = (RespOk, self') ∧
    store self' = store self ∧
    get thread_id key self' = (RespResult value, self').
Proof.
  intros [txn Htxn]. unfold put. rewrite Htxn.
  eexists. split; [reflexivity|]. split; [done|].
  unfold get. simpl. by rewrite !lookup_insert_eq.
Qed.

Lemma read_your_writes_witness :
  ∃ self',
    put 1 "user1" (PyStr "bob")
      (mkKV {["user1" := PyStr "alice"]} {[1 := {["user1" := PyNone]}]})
    = (RespOk, self') ∧
    store self'
    = store (mkKV {["user1" := PyStr "alice"]}
                  {[1 := {["user1" := PyNone]}]}) ∧
    get 1 "user1" self' = (RespResult (PyStr "bob"), self').
Proof.
  apply (read_your_writes 1 "user1" (PyStr "bob")
    (mkKV {["user1" := PyStr "alice"]} {[1 := {["user1" := PyNone]}]})).
  vm_compute. eauto.
Defined.

(** ** Other keys *)

(** [put] and [delete] of one key never change what any thread reads at
    another key, whether the writer is inside a transaction or not and
    whether the reader is the writer or someone else. *)
Theorem write_leaves_other_keys A B key key' value self :
  key ≠ key' →
  (get B key' (put A key value self).2).1 = (get B key' self).1 ∧
  (get B key' (delete A key self).2).1 = (get B key' self).1.
Proof.
  intros Hne. unfold put, delete, get, store_get.
  destruct (transactions self !! A) as [txn|] eqn:HA; simpl.
  - destruct (decide (A = B)) as [<-|HAB].
    + by rewrite !lookup_insert_eq, HA, !lookup_insert_ne.
    + by rewrite !lookup_insert_ne.
  - rewrite del_if_present_delete.
    by rewrite lookup_insert_ne, lookup_delete_ne.
Qed.

Lemma write_leaves_other_keys_witness :
  (get 2 "b" (put 1 "a" (PyStr "x")
                (mkKV {["b" := PyStr "y"]} {[1 := ∅]})).2).1
    = (get 2 "b" (mkKV {["b" := PyStr "y"]} {[1 := ∅]})).1 ∧
  (get 2 "b" (delete 1 "a" (mkKV {["b" := PyStr "y"]} {[1 := ∅]})).2).1
    = (get 2 "b" (mkKV {["b" := PyStr "y"]} {[1 := ∅]})).1.
Proof.
  apply (write_leaves_other_keys 1 2 "a" "b" (PyStr "x")
           (mkKV {["b" := PyStr "y"]} {[1 := ∅]})).
  vm_compute. congruence.
Defined.

(** ** The registry entries of other threads *)

(** Whatever method a thread calls, the overlay of every other thread,
    and whether that thread has one, stays as it was. *)
Theorem call_leaves_other_overlays A B c self :
  A ≠ B →
  transactions (run B c self).2 !! A = transactions self !! A ∧
  (active A (run B c self).2 ↔ active A self).
Proof.
  intros HAB. unfold active. by rewrite run_other_overlay.
Qed.

Lemma call_leaves_other_overlays_witness :
  transactions
    (run 2 Commit (mkKV ∅ {[1 := {["k" := PyStr "v"]}; 2 := ∅]})).2 !! 1
  = Some {["k" := PyStr "v"]}.
Proof.
  destruct (call_leaves_other_overlays 1 2 Commit
              (mkKV ∅ {[1 := {["k" := PyStr "v"]}; 2 := ∅]})) as [H _].
  - lia.
  - rewrite H. reflexivity.
Defined.

(** ** Rollback and commit of a whole transaction *)

(** A transaction that is opened by an idle thread, filled by any calls
    other than commit and rollback, and then rolled back, leaves exactly
    the state it started from: store and registry. *)
Theorem rollback_restores_state thread_id cs self :
  idle thread_id self → forallb buffers cs = true →
  (start_transaction thread_id self).1 = RespOk ∧
  rollback_transaction thread_id
    (run_all thread_id cs (start_transaction thread_id self).2)
  = (RespOk, self).
Proof.
  unfold idle. intros Hidle Hcs.
  unfold start_transaction. rewrite Hidle. split; [done|]. simpl.
  set (s1 := mkKV (store self) (<[thread_id := ∅]> (transactions self))).
  assert (Hact : active thread_id s1).
  { unfold active, s1. simpl. rewrite lookup_insert_eq. by eexists. }
  destruct (buffered_calls_frame thread_id cs s1 Hact Hcs)
    as (Hst & [txn Htxn] & Htx).
  unfold rollback_transaction. rewrite Htxn. f_equal.
  destruct self as [st T]. simpl in *. f_equal; [done|].
  apply map_eq. intros B. destruct (decide (thread_id = B)) as [<-|HB].
  - by rewrite lookup_delete_eq.
  - rewrite lookup_delete_ne by done. rewrite Htx by done.
    by rewrite lookup_insert_ne.
Qed.

Lemma rollback_restores_state_witness :
  (start_transaction 1 (mkKV {["k" := PyStr "v0"]} ∅)).1 = RespOk ∧
  rollback_transaction 1
    (run_all 1 [Put "k" (PyStr "v1"); Del "j"; Start]
       (start_transaction 1 (mkKV {["k" := PyStr "v0"]} ∅)).2)
  = (RespOk, mkKV {["k" := PyStr "v0"]} ∅).
Proof.
  apply (rollback_restores_state 1 [Put "k" (PyStr "v1"); Del "j"; Start]
           (mkKV {["k" := PyStr "v0"]} ∅)); reflexivity.
Defined.

Lemma mirrors_start thread_id self :
  idle thread_id self →
  mirrors thread_id (start_transaction thread_id self).2 self.
Proof.
  unfold idle. intros Hidle. unfold start_transaction. rewrite Hidle.
  exists ∅. simpl. split_and!.
  - apply lookup_insert_eq.
  - by rewrite delete_insert_id.
  - intros key. unfold merged. by rewrite lookup_empty.
Qed.

Lemma mirrors_run thread_id c s1 s2 :
  plain c = true → mirrors thread_id s1 s2 →
  mirrors thread_id (run thread_id c s1).2 (run thread_id c s2).2.
Proof.
  intros Hc (txn & Htxn & HT & Hst).
  assert (Hidle : transactions s2 !! thread_id = None).
  { rewrite HT. apply lookup_delete_eq. }
  destruct c as [key [|v]|key|key| | |]; try discriminate; simpl.
  - unfold put. rewrite Htxn, Hidle. eexists. simpl. split_and!.
    + apply lookup_insert_eq.
    + by rewrite delete_insert_eq.
    + intros k. unfold merged. destruct (decide (key = k)) as [->|Hne].
      * by rewrite !lookup_insert_eq.
      * rewrite !lookup_insert_ne by done. apply Hst.
  - by exists txn.
  - unfold delete. rewrite Htxn, Hidle. eexists. simpl. split_and!.
    + apply lookup_insert_eq.
    + by rewrite delete_insert_eq.
    + intros k. rewrite del_if_present_delete. unfold merged.
      destruct (decide (key = k)) as [->|Hne].
      * by rewrite lookup_insert_eq, lookup_delete_eq.
      * rewrite lookup_insert_ne, lookup_delete_ne by done. apply Hst.
Qed.

Lemma mirrors_run_all thread_id cs s1 s2 :
  forallb plain cs = true → mirrors thread_id s1 s2 →
  mirrors thread_id (run_all thread_id cs s1) (run_all thread_id cs s2).
Proof.
  revert s1 s2. induction cs as [|c cs IH]; intros s1 s2 Hcs Hm; [done|].
  simpl in Hcs. apply andb_prop in Hcs as [Hc Hcs].
  apply (IH _ _ Hcs). by apply mirrors_run.
Qed.

Lemma mirrors_commit thread_id s1 s2 :
  mirrors thread_id s1 s2 →
  commit_transaction thread_id s1 = (RespOk, s2).
Proof.
  intros (txn & Htxn & HT & Hst). unfold commit_transaction.
  rewrite Htxn. f_equal. destruct s2 as [st2 T2]. simpl in *.
  f_equal; [|done]. apply map_eq. intros key.
  by rewrite apply_items_dict.
Qed.

(** Buffering is transparent.  If an idle thread opens a transaction,
    makes any sequence of reads, deletes and writes of strings, and
    commits, the state it leaves is the state the same calls produce when
    made directly, with no transaction. *)
Theorem commit_equals_direct thread_id cs self :
  idle thread_id self → forallb plain cs = true →
  commit_transaction thread_id
    (run_all thread_id cs (start_transaction thread_id self).2)
  = (RespOk, run_all thread_id cs self).
Proof.
  intros Hidle Hcs. apply mirrors_commit.
  by apply mirrors_run_all, mirrors_start.
Qed.

Lemma commit_equals_direct_witness :
  commit_transaction 1
    (run_all 1 [Put "a" (PyStr "1"); Del "b"; Put "b" (PyStr "2"); Del "a"]
       (start_transaction 1 (mkKV {["a" := PyStr "0"]} ∅)).2)
  = (RespOk,
     run_all 1 [Put "a" (PyStr "1"); Del "b"; Put "b" (PyStr "2"); Del "a"]
       (mkKV {["a" := PyStr "0"]} ∅)).
Proof.
  apply (commit_equals_direct 1
           [Put "a" (PyStr "1"); Del "b"; Put "b" (PyStr "2"); Del "a"]
           (mkKV {["a" := PyStr "0"]} ∅)); reflexivity.
Defined.

(** ** What the others see of a commit *)

(** Once a thread has committed, the entry it had buffered for a key is
    what every thread reads there: the value for a value entry, the
    not-found error for a deleted key.  The exception the code makes is a
    reader with an entry of its own for the key in an open transaction. *)
Theorem committed_entry_visible A B key entry self txn :
  transactions self !! A = Some txn → txn !! key = Some entry →
  (∀ txnB, A ≠ B → transactions self !! B = Some txnB →
     txnB !! key = None) →
  (get B key (commit_transaction A self).2).1
  = match entry with
    | PyStr v => RespResult (PyStr v)
    | PyNone => RespError (not_found_mesg key)
    end.
Proof.
  intros Htxn Hentry HB. unfold commit_transaction. rewrite Htxn.
  unfold get, store_get. simpl.
  assert (Hst : apply_items (map_to_list txn) (store self) !! key
                = merged txn (store self) key) by apply apply_items_dict.
  unfold merged in Hst. rewrite Hentry in Hst.
  destruct (decide (A = B)) as [<-|HAB].
  - rewrite lookup_delete_eq, Hst. by destruct entry.
  - rewrite lookup_delete_ne by done.
    destruct (transactions self !! B) as [txnB|] eqn:HtB.
    + rewrite (HB txnB HAB eq_refl), Hst. by destruct entry.
    + rewrite Hst. by destruct entry.
Qed.

Lemma committed_entry_visible_witness :
  (get 2 "k"
     (commit_transaction 1 (mkKV ∅ {[1 := {["k" := PyStr "v"]}]})).2).1
  = RespResult (PyStr "v").
Proof.
  apply (committed_entry_visible 1 2 "k" (PyStr "v")
           (mkKV ∅ {[1 := {["k" := PyStr "v"]}]}) {["k" := PyStr "v"]}).
  - reflexivity.
  - reflexivity.
  - intros txnB _ H. vm_compute in H. discriminate.
Defined.

(** ** Two commits in a row *)

Lemma commit_commit_store A B self txnA txnB key :
  A ≠ B →
  transactions self !! A = Some txnA → transactions self !! B = Some txnB →
  store (commit_transaction B (commit_transaction A self).2).2 !! key
  = match txnB !! key with
    | Some _ => merged txnB (store self) key
    | None => merged txnA (store self) key
    end.
Proof.
  intros HAB HA HB. unfold commit_transaction at 2. rewrite HA.
  unfold commit_transaction. simpl.
  rewrite lookup_delete_ne, HB by done. simpl.
  rewrite apply_items_dict. unfold merged at 1.
  destruct (txnB !! key) as [e|] eqn:He.
  - unfold merged. by rewrite He.
  - apply apply_items_dict.
Qed.

(** Last committer wins.  When two threads commit one after the other,
    each key with an entry in the second overlay ends up as that entry
    says, whatever the first overlay held for it; the first commit shows
    only at the keys the second did not write. *)
Theorem last_committer_wins A B self txnA txnB :
  A ≠ B →
  transactions self !! A = Some txnA → transactions self !! B = Some txnB →
  (commit_transaction A self).1 = RespOk ∧
  (commit_transaction B (commit_transaction A self).2).1 = RespOk ∧
  ∀ key,
    store (commit_transaction B (commit_transaction A self).2).2 !! key
    = match txnB !! key with
      | Some _ => merged txnB (store self) key
      | None => merged txnA (store self) key
      end.
Proof.
  intros HAB HA HB. split_and!.
  - unfold commit_transaction. by rewrite HA.
  - unfold commit_transaction at 2. rewrite HA.
    unfold commit_transaction. simpl.
    by rewrite lookup_delete_ne, HB.
  - intros key. by apply commit_commit_store.
Qed.

Lemma last_committer_wins_witness :
  store (commit_transaction 2
           (commit_transaction 1
              (mkKV ∅ {[1 := {["k" := PyStr "a"]};
                        2 := {["k" := PyStr "b"]}]})).2).2 !! "k"
  = Some (PyStr "b").
Proof.
  destruct (last_committer_wins 1 2
              (mkKV ∅ {[1 := {["k" := PyStr "a"]};
                        2 := {["k" := PyStr "b"]}]})
              {["k" := PyStr "a"]} {["k" := PyStr "b"]})
    as (_ & _ & H).
  - lia.
  - reflexivity.
  - reflexivity.
  - rewrite H. reflexivity.
Defined.

(** Commits of two threads whose overlays have no key in common can
    happen in either order: the final state is the same. *)
Theorem disjoint_commits_commute A B self txnA txnB :
  A ≠ B →
  transactions self !! A = Some txnA → transactions self !! B = Some txnB →
  (∀ key, txnA !! key = None ∨ txnB !! key = None) →
  (commit_transaction B (commit_transaction A self).2).2
  = (commit_transaction A (commit_transaction B self).2).2.
Proof.
  intros HAB HA HB Hdisj.
  pose proof (commit_commit_store A B self txnA txnB) as HAB_st.
  pose proof (commit_commit_store B A self txnB txnA) as HBA_st.
  assert (HT :
    transactions (commit_transaction B (commit_transaction A self).2).2
    = transactions (commit_transaction A (commit_transaction B self).2).2).
  { unfold commit_transaction at 2 4. rewrite HA, HB.
    unfold commit_transaction. simpl.
    rewrite !lookup_delete_ne, HA, HB by done. simpl.
    apply delete_delete. }
  destruct (commit_transaction B (commit_transaction A self).2).2
    as [st1 T1].
  destruct (commit_transaction A (commit_transaction B self).2).2
    as [st2 T2].
  simpl in *. f_equal; [|done]. apply map_eq. intros key.
  rewrite HAB_st, HBA_st by done.
  destruct (Hdisj key) as [Hk|Hk]; rewrite Hk.
  - destruct (txnB !! key) eqn:E; [done|].
    unfold merged. by rewrite Hk, E.
  - destruct (txnA !! key) eqn:E; [done|].
    unfold merged. by rewrite Hk, E.
Qed.

Lemma disjoint_commits_commute_witness :
  (commit_transaction 2
     (commit_transaction 1
        (mkKV ∅ {[1 := {["a" := PyStr "x"]};
                  2 := {["b" := PyStr "y"]}]})).2).2
  = (commit_transaction 1
       (commit_transaction 2
          (mkKV ∅ {[1 := {["a" := PyStr "x"]};
                    2 := {["b" := PyStr "y"]}]})).2).2.
Proof.
  apply (disjoint_commits_commute 1 2
           (mkKV ∅ {[1 := {["a" := PyStr "x"]}; 2 := {["b" := PyStr "y"]}]})
           {["a" := PyStr "x"]} {["b" := PyStr "y"]}).
  - lia.
  - reflexivity.
  - reflexivity.
  - intros key. destruct (decide (key = "a")) as [->|Hne].
    + right. reflexivity.
    + left. by apply lookup_singleton_ne.
Defined.

(** * Further properties of the protocol handler *)

Section Handler.

Variable strip : string → string.
Variable split : string → list string.
Variable upper : string → string.

Lemma invoke_run thread_id c self :
  invoke (run thread_id c) self
  = (Returned (run thread_id c self).1, (run thread_id c self).2).
Proof. unfold invoke. by destruct (run thread_id c self). Qed.

(** What the [if]/[elif] chain can come to: the [IndexError], the
    unknown-command response, or one method call, whose value argument,
    if it has one, is a string. *)
Lemma dispatch_cases command_parts thread_id self :
  dispatch upper command_parts thread_id self
    = (Raised "list index out of range", self) ∨
  dispatch upper command_parts thread_id self
    = (Returned (RespError "Unknown command."), self) ∨
  ∃ c, (∀ key, c ≠ Put key PyNone) ∧
       dispatch upper command_parts thread_id self
       = (Returned (run thread_id c self).1, (run thread_id c self).2).
Proof.
  unfold dispatch, py_bind, index.
  destruct command_parts as [|c0 rest]; simpl; [by left|].
  repeat case_decide.
  - destruct rest as [|key vs]; simpl; [by left|]. right. right.
    exists (Put key (PyStr (String.concat " " vs))).
    split; [done|].
    exact (invoke_run thread_id (Put key (PyStr (String.concat " " vs))) self).
  - destruct rest as [|key vs]; simpl; [by left|]. right. right.
    exists (Get key). split; [done|]. exact (invoke_run thread_id (Get key) self).
  - destruct rest as [|key vs]; simpl; [by left|]. right. right.
    exists (Del key). split; [done|]. exact (invoke_run thread_id (Del key) self).
  - right. right. exists Start. split; [done|].
    exact (invoke_run thread_id Start self).
  - right. right. exists Commit. split; [done|].
    exact (invoke_run thread_id Commit self).
  - right. right. exists Rollback. split; [done|].
    exact (invoke_run thread_id Rollback self).
  - right. by left.
Qed.

(** One loop iteration changes the state only when it sends a response
    with status ["Ok"]: leaving the loop, skipping the line, and every
    error response (a missing key, an unknown command, a failed lookup,
    a transaction command in the wrong state) leave store and registry
    as they were. *)
Theorem handler_changes_state_only_on_ok received thread_id self :
  (handle_client strip split upper received thread_id self).2 ≠ self →
  ∃ r, (handle_client strip split upper received thread_id self).1 = Send r
       ∧ status r = "Ok".
Proof.
  unfold handle_client. case_decide; [done|].
  destruct (split (strip received)) as [|c0 rest]; [done|].
  destruct (dispatch_cases (c0 :: rest) thread_id self)
    as [-> | [-> | (c & _ & ->)]]; simpl; [done..|].
  intros Hs. eexists. split; [done|].
  destruct (run thread_id c self).1 eqn:Hr; [done..|].
  destruct Hs. apply run_error_state. by rewrite Hr.
Qed.

(** [run] keeps [None] out of the store, unless it is an idle [put] of
    [None] itself. *)
Lemma run_no_none thread_id c self :
  (∀ key, c ≠ Put key PyNone) →
  no_none (store self) → no_none (store (run thread_id c self).2).
Proof.
  intros Hc Hst. unfold no_none in *.
  destruct c as [key v|key|key| | |]; simpl;
    unfold put, get, delete, start_transaction, commit_transaction,
      rollback_transaction;
    destruct (transactions self !! thread_id) as [txn|]; simpl;
    try done.
  - intros k. destruct (decide (key = k)) as [->|Hne].
    + rewrite lookup_insert_eq. intros [= ->]. by destruct (Hc k).
    + by rewrite lookup_insert_ne.
  - intros k. rewrite del_if_present_delete.
    destruct (decide (key = k)) as [->|Hne].
    + by rewrite lookup_delete_eq.
    + by rewrite lookup_delete_ne.
  - intros k. rewrite apply_items_dict. unfold merged.
    destruct (txn !! k) as [[|v]|]; [done..|]. apply Hst.
Qed.

Lemma handle_client_no_none received thread_id self :
  no_none (store self) →
  no_none (store (handle_client strip split upper received thread_id self).2).
Proof.
  intros Hst. unfold handle_client. case_decide; [done|].
  destruct (split (strip received)) as [|c0 rest]; [done|].
  destruct (dispatch_cases (c0 :: rest) thread_id self)
    as [-> | [-> | (c & Hc & ->)]]; simpl; [done..|].
  by apply run_no_none.
Qed.

(** Through the protocol no [None] ever reaches the store: whatever the
    clients send and however their requests interleave, every value in
    the store of a server that started empty is a string.  ([None]
    entries exist in overlays only, where [DEL] puts them, and
    [commit_transaction] turns them into deletions.) *)
Theorem protocol_never_stores_none requests :
  no_none (store (handle_all strip split upper requests init)).
Proof.
  unfold handle_all.
  assert (H0 : no_none (store init)).
  { intros key. unfold init. simpl. by rewrite lookup_empty. }
  revert H0. generalize init.
  induction requests as [|r requests IH]; intros s Hs; [done|].
  simpl. apply IH. by apply handle_client_no_none.
Qed.

Lemma handle_client_put r c key vs thread_id self :
  strip r ≠ "" → split (strip r) = c :: key :: vs → upper c = "PUT" →
  handle_client strip split upper r thread_id self
  = (Send (put thread_id key (PyStr (String.concat " " vs)) self).1,
     (put thread_id key (PyStr (String.concat " " vs)) self).2).
Proof.
  intros Hd Hp Hc. unfold handle_client.
  rewrite decide_False by done. rewrite Hp.
  unfold dispatch, py_bind, index. simpl. rewrite Hc. simpl.
  unfold invoke. by destruct (put thread_id key _ self).
Qed.

Lemma handle_client_get r c key extra thread_id self :
  strip r ≠ "" → split (strip r) = c :: key :: extra → upper c = "GET" →
  handle_client strip split upper r thread_id self
  = (Send (get thread_id key self).1, self).
Proof.
  intros Hd Hp Hc. unfold handle_client.
  rewrite decide_False by done. rewrite Hp.
  unfold dispatch, py_bind, index. simpl. rewrite Hc. by simpl.
Qed.

(** A [PUT] followed by a [GET] of the same key on the same connection
    returns the tokens of the value joined by single spaces, inside a
    transaction as well as outside; what follows the key of the [GET] is
    not looked at. *)
Theorem protocol_put_then_get r1 r2 c1 c2 key vs extra thread_id self :
  strip r1 ≠ "" → split (strip r1) = c1 :: key :: vs → upper c1 = "PUT" →
  strip r2 ≠ "" → split (strip r2) = c2 :: key :: extra →
  upper c2 = "GET" →
  ∃ s1,
    handle_client strip split upper r1 thread_id self = (Send RespOk, s1) ∧
    handle_client strip split upper r2 thread_id s1
    = (Send (RespResult (PyStr (String.concat " " vs))), s1).
Proof.
  intros Hd1 Hp1 Hc1 Hd2 Hp2 Hc2.
  rewrite (handle_client_put r1 c1 key vs) by done.
  exists (put thread_id key (PyStr (String.concat " " vs)) self).2. split.
  - unfold put. by destruct (transactions self !! thread_id).
  - rewrite (handle_client_get r2 c2 key extra) by done. f_equal. f_equal.
    unfold put, get, store_get.
    destruct (transactions self !! thread_id) as [txn|] eqn:Htxn; simpl.
    + by rewrite !lookup_insert_eq.
    + by rewrite Htxn, lookup_insert_eq.
Qed.

(** Tokens after the last argument a command takes are ignored: after
    the key of [GET] and [DEL], after the keyword of [START], [COMMIT]
    and [ROLLBACK]. *)
Theorem extra_tokens_ignored c key extra thread_id self :
  (upper c ∈ ["GET"; "DEL"] →
     dispatch upper (c :: key :: extra) thread_id self
     = dispatch upper [c; key] thread_id self) ∧
  (upper c ∈ ["START"; "COMMIT"; "ROLLBACK"] →
     dispatch upper (c :: extra) thread_id self
     = dispatch upper [c] thread_id self).
Proof using upper.
  clear strip split.
  split; intros Hc; rewrite list_elem_of_In in Hc; simpl in Hc;
    unfold dispatch, py_bind, index; simpl;
    repeat case_decide; try done; exfalso; intuition congruence.
Qed.

End Handler.

Lemma handler_changes_state_only_on_ok_witness :
  ∃ r, (serve "put k v" 0 init).1 = Send r ∧ status r = "Ok".
Proof.
  apply (handler_changes_state_only_on_ok
           ascii_strip ascii_split ascii_upper "put k v" 0 init).
  vm_compute. congruence.
Defined.

Lemma protocol_put_then_get_witness :
  ∃ s1,
    serve "PUT user1 alice  smith" 0 init = (Send RespOk, s1) ∧
    serve "get user1" 0 s1 = (Send (RespResult (PyStr "alice smith")), s1).
Proof.
  apply (protocol_put_then_get ascii_strip ascii_split ascii_upper
           "PUT user1 alice  smith" "get user1" "PUT" "get" "user1"
           ["alice"; "smith"] [] 0 init);
    solve [reflexivity | vm_compute; congruence].
Defined.

Lemma extra_tokens_ignored_witness :
  dispatch ascii_upper ["get"; "k"; "and"; "more"] 0 init
    = dispatch ascii_upper ["get"; "k"] 0 init ∧
  dispatch ascii_upper ["commit"; "now"] 0 init
    = dispatch ascii_upper ["commit"] 0 init.
Proof.
  split.
  - apply (extra_tokens_ignored ascii_upper "get" "k" ["and"; "more"] 0 init).
    vm_compute. apply list_elem_of_In. simpl. auto.
  - apply (extra_tokens_ignored ascii_upper "commit" "k" ["now"] 0 init).
    vm_compute. apply list_elem_of_In. simpl. auto.
Defined.

(** ** Blank lines, with the ASCII built-ins *)

Lemma lstrip_all_space s : all_space s = true → lstrip s = "".
Proof.
  induction s as [|a s IH]; simpl; [done|].
  intros [Ha Hs]%andb_prop. rewrite Ha. by apply IH.
Qed.

Lemma lstrip_empty s : lstrip s = "" → all_space s = true.
Proof.
  induction s as [|a s IH]; simpl; [done|].
  destruct (isspace a); [done|discriminate].
Qed.

Lemma lstrip_head s a t : lstrip s = String a t → isspace a = false.
Proof.
  induction s as [|b s IH]; simpl; [done|].
  destruct (isspace b) eqn:Hb; [done|]. by intros [= <- _].
Qed.

Lemma all_space_rev_app s t :
  all_space (String.rev_app s t) = all_space s && all_space t.
Proof.
  revert t. induction s as [|a s IH]; intros t; simpl; [done|].
  rewrite IH. simpl. by destruct (isspace a), (all_space s).
Qed.

Lemma all_space_rev s : all_space (String.rev s) = all_space s.
Proof.
  unfold String.rev. rewrite all_space_rev_app. simpl.
  by rewrite andb_true_r.
Qed.

Lemma rev_app_empty s t : String.rev_app s t = "" → s = "" ∧ t = "".
Proof.
  revert t. induction s as [|a s IH]; intros t; simpl; [done|].
  intros H. by destruct (IH _ H).
Qed.

Lemma all_space_lstrip s : all_space (lstrip s) = true → all_space s = true.
Proof.
  induction s as [|a s IH]; simpl; [done|].
  destruct (isspace a) eqn:Ha; simpl.
  - apply IH.
  - by rewrite Ha.
Qed.

Lemma ascii_strip_empty s : ascii_strip s = "" ↔ all_space s = true.
Proof.
  unfold ascii_strip. split.
  - intros H. apply rev_app_empty in H as [H _].
    apply lstrip_empty in H. rewrite all_space_rev in H.
    by apply all_space_lstrip.
  - intros H. by rewrite (lstrip_all_space s H).
Qed.

Lemma ascii_strip_has_token s :
  ascii_strip s ≠ "" → all_space (ascii_strip s) = false.
Proof.
  unfold ascii_strip. intros H.
  destruct (lstrip (String.rev (lstrip s))) as [|a t] eqn:E; [done|].
  rewrite all_space_rev. simpl.
  by rewrite (lstrip_head _ _ _ E).
Qed.

Lemma split_go_nil s word :
  split_go s word = [] → word = "" ∧ all_space s = true.
Proof.
  revert word. induction s as [|a s IH]; intros word; simpl.
  - by destruct word.
  - destruct (isspace a); simpl.
    + destruct word; [|done]. intros H. by destruct (IH _ H).
    + intros H. by destruct (IH _ H).
Qed.

(** With the ASCII built-ins: a line of white space only (the empty line
    included) makes the handler leave its loop, which closes the
    connection, without touching the state; every other line is answered
    with a response.  The [continue] of the source is never taken. *)
Theorem serve_blank_line received thread_id self :
  (all_space received = true → serve received thread_id self = (Break, self)) ∧
  (all_space received = false →
     ∃ r, (serve received thread_id self).1 = Send r) ∧
  (serve received thread_id self).1 ≠ Continue.
Proof.
  assert (Hsend : ascii_strip received ≠ "" →
                  ∃ r, (serve received thread_id self).1 = Send r).
  { intros Hd. unfold serve, handle_client. rewrite decide_False by done.
    destruct (ascii_split (ascii_strip received)) as [|c0 rest] eqn:Hp.
    - apply split_go_nil in Hp as [_ Hp].
      by rewrite (ascii_strip_has_token _ Hd) in Hp.
    - destruct (dispatch _ _ _ _) as [[r|e] s]; by eexists. }
  split_and!.
  - intros Hs%ascii_strip_empty. unfold serve, handle_client.
    by rewrite decide_True.
  - intros Hs. apply Hsend. intros Hd%ascii_strip_empty. congruence.
  - destruct (decide (ascii_strip received = "")) as [Hd|Hd].
    + unfold serve, handle_client. by rewrite decide_True.
    + destruct (Hsend Hd) as [r ->]. done.
Qed.

Lemma serve_blank_line_witness :
  serve "   " 0 init = (Break, init) ∧
  ∃ r, (serve " get k " 0 init).1 = Send r.
Proof.
  split.
  - apply (serve_blank_line "   " 0 init). reflexivity.
  - apply (serve_blank_line " get k " 0 init). reflexivity.
Defined.

(** * [simulate_store_operations] *)

Lemma simulate_run_all ident thread_id self :
  (simulate_store_operations ident thread_id self).2
  = run_all ident (simulate_calls thread_id) self.
Proof.
  unfold simulate_store_operations, run_all, simulate_calls. simpl.
  destruct (start_transaction ident self) as [r1 s1]. simpl.
  destruct (put ident _ _ s1) as [r2 s2]. simpl.
  destruct (commit_transaction ident s2) as [r4 s4]. simpl.
  by destruct (delete ident _ s4) as [r5 s5].
Qed.

(** One uninterrupted run of [simulate_store_operations], from any state:
    the [get] returns the value just written and the commit succeeds;
    afterwards the thread has no transaction and the key is not in the
    store.  If the thread was idle at the start, [start_transaction]
    succeeds too, and the state at the end is the state at the start
    without the key. *)
Theorem simulate_store_operations_spec ident thread_id self :
  (∃ started s',
     simulate_store_operations ident thread_id self
     = ([started; RespResult (PyStr (sim_value thread_id)); RespOk], s') ∧
     idle ident s' ∧
     store s' !! sim_key thread_id = None) ∧
  (idle ident self →
     simulate_store_operations ident thread_id self
     = ([RespOk; RespResult (PyStr (sim_value thread_id)); RespOk],
        mkKV (base.delete (sim_key thread_id) (store self))
             (transactions self))).
Proof.
  unfold idle, simulate_store_operations, start_transaction.
  destruct (transactions self !! ident) as [txn|] eqn:Htxn.
  - split; [|done].
    unfold put. rewrite Htxn. unfold get. simpl.
    rewrite !lookup_insert_eq.
    unfold commit_transaction. simpl. rewrite lookup_insert_eq.
    unfold delete. simpl. rewrite lookup_delete_eq.
    eexists _, _. split; [reflexivity|]. simpl. split.
    + apply lookup_delete_eq.
    + rewrite del_if_present_delete. apply lookup_delete_eq.
  - unfold put. simpl. rewrite lookup_insert_eq. unfold get. simpl.
    rewrite !lookup_insert_eq.
    unfold commit_transaction. simpl. rewrite lookup_insert_eq.
    unfold delete. simpl. rewrite lookup_delete_eq.
    rewrite insert_insert_eq, insert_empty, map_to_list_singleton.
    rewrite delete_insert_id by done. simpl.
    unfold apply_item. simpl.
    rewrite del_if_present_delete, delete_insert_eq.
    split.
    + eexists _, _. split; [reflexivity|]. simpl. split; [done|].
      apply lookup_delete_eq.
    + done.
Qed.

Lemma simulate_store_operations_spec_witness :
  simulate_store_operations 7 3 (mkKV {["other" := PyStr "x"]} ∅)
  = ([RespOk; RespResult (PyStr (sim_value 3)); RespOk],
     mkKV (base.delete (sim_key 3) (store (mkKV {["other" := PyStr "x"]} ∅)))
          (transactions (mkKV {["other" := PyStr "x"]} ∅))).
Proof.
  apply (simulate_store_operations_spec 7 3
           (mkKV {["other" := PyStr "x"]} ∅)).
  reflexivity.
Defined.

(** * The main block *)

Lemma ident_busy_false prog (p : pool) ident j pc :
  ident_busy prog p ident = false → p !! j = Some (ident, pc) →
  in_progress prog j (ident, pc) = false.
Proof.
  unfold ident_busy. intros Hb Hj.
  destruct (in_progress prog j (ident, pc)) eqn:Hin; [|done].
  rewrite <- Hb. symmetry. apply existsb_exists. exists true.
  split; [|done]. apply list_elem_of_In, list_elem_of_lookup. exists j.
  rewrite list_lookup_imap, Hj. simpl.
  by rewrite bool_decide_eq_true_2, Hin.
Qed.

Lemma pool_inv_start idents : pool_inv init ((λ ident, (ident, 0)) <$> idents).
Proof.
  assert (H0 : ∀ i ident pc,
    ((λ ident, (ident, 0)) <$> idents) !! i = Some (ident, pc) → pc = 0).
  { intros i ident pc. rewrite list_lookup_fmap.
    destruct (idents !! i); simpl; [|done]. by intros [= _ <-]. }
  unfold pool_inv. split_and!.
  - intros i ident pc Hi. rewrite (H0 _ _ _ Hi). lia.
  - intros key [v Hv]. unfold init in Hv. simpl in Hv.
    by rewrite lookup_empty in Hv.
  - intros ident [v Hv]. unfold init in Hv. simpl in Hv.
    by rewrite lookup_empty in Hv.
  - intros i ident pc Hi. rewrite (H0 _ _ _ Hi). lia.
  - intros i j ti pi tj pj _ Hi _. rewrite (H0 _ _ _ Hi). lia.
Qed.

Lemma pool_inv_step i s (p : pool) s' p' :
  pool_inv s p → step_at simulate_calls i (s, p) = Some (s', p') →
  pool_inv s' p'.
Proof.
  intros (I0 & I1 & I3 & I4 & I5). unfold step_at. simpl.
  destruct (p !! i) as [[t pc]|] eqn:Hi; [|done].
  destruct (simulate_calls i !! pc) as [c|] eqn:Hc; [|done].
  destruct (bool_decide (pc = 0) && ident_busy simulate_calls p t) eqn:Hg;
    [done|].
  intros [= <- <-].
  assert (Hpc : pc < 5).
  { apply lookup_lt_Some in Hc. simpl in Hc. lia. }
  assert (Hlen : i < length p) by (by apply lookup_lt_Some in Hi).
  assert (Hnew : <[i := (t, S pc)]> p !! i = Some (t, S pc))
    by (by apply list_lookup_insert_eq).
  assert (Hold : ∀ j, j ≠ i → <[i := (t, S pc)]> p !! j = p !! j)
    by (intros j Hj; by apply list_lookup_insert_ne).
  assert (H1 : ∀ j tj pj,
            j ≠ i → p !! j = Some (tj, pj) → 1 ≤ pj ≤ 4 → tj ≠ t).
  { intros j tj pj Hj Hpj Hr ->. destruct (decide (pc = 0)) as [->|Hpc0].
    - rewrite bool_decide_eq_true_2 in Hg by done. simpl in Hg.
      pose proof (ident_busy_false _ _ _ _ _ Hg Hpj) as Hin.
      unfold in_progress in Hin. simpl in Hin.
      destruct (Nat.ltb_spec 0 pj), (Nat.ltb_spec pj 5);
        simpl in Hin; try done; lia.
    - apply (I5 i j t pc t pj); try done; lia. }
  assert (H2 : pc = 0 ∨ pc = 4 → transactions s !! t = None).
  { intros Hpc04. destruct (transactions s !! t) eqn:E; [|done].
    destruct (I3 t) as (j & pj & Hj & Hr); [by rewrite E|].
    destruct (decide (j = i)) as [->|Hji].
    - rewrite Hi in Hj. injection Hj as <-. lia.
    - destruct (H1 j t pj); try done; lia. }
  assert (Hother : ∀ tj, tj ≠ t →
            transactions (run t c s).2 !! tj = transactions s !! tj)
    by (intros tj Htj; by apply run_other_overlay).
  assert (Hkeep : ∀ key, is_Some (store s !! key) →
            (pc = 4 → key ≠ sim_key i) →
            ∃ j tj, <[i := (t, S pc)]> p !! j = Some (tj, 4)
                    ∧ key = sim_key j).
  { intros key Hsome Hk. destruct (I1 key Hsome) as (j & tj & Hj & ->).
    exists j, tj. split; [|done]. rewrite Hold; [done|]. intros ->.
    rewrite Hi in Hj. injection Hj as <- ->. by apply Hk. }
  unfold pool_inv. split_and!.
  - intros j tj pj Hj. destruct (decide (j = i)) as [->|Hji].
    + rewrite Hnew in Hj. injection Hj as <- <-. lia.
    + rewrite Hold in Hj by done. eauto.
  - intros key Hsome.
    destruct pc as [|[|[|[|[|pc]]]]]; [..|lia];
      simpl in Hc; injection Hc as <-; simpl in Hsome.
    + unfold start_transaction in Hsome.
      destruct (transactions s !! t); apply Hkeep; done.
    + destruct (I4 i t 1 Hi) as (txn & Htxn & Hdom); [lia|].
      unfold put in Hsome. rewrite Htxn in Hsome. by apply Hkeep.
    + by apply Hkeep.
    + destruct (I4 i t 3 Hi) as (txn & Htxn & Hdom); [lia|].
      unfold commit_transaction in Hsome. rewrite Htxn in Hsome.
      simpl in Hsome. rewrite apply_items_dict in Hsome.
      unfold merged in Hsome.
      destruct (txn !! key) as [[|v]|] eqn:Hk.
      * by destruct Hsome.
      * exists i, t. split; [done|]. apply Hdom. by rewrite Hk.
      * by apply Hkeep.
    + unfold delete in Hsome. rewrite H2 in Hsome by auto.
      simpl in Hsome. rewrite del_if_present_delete in Hsome.
      destruct (decide (key = sim_key i)) as [->|Hne].
      * rewrite lookup_delete_eq in Hsome. by destruct Hsome.
      * rewrite lookup_delete_ne in Hsome by done. by apply Hkeep.
  - intros ident Hsome. destruct (decide (ident = t)) as [->|Hne].
    + exists i, (S pc). split; [done|].
      destruct (decide (pc ≤ 2)) as [|Hbig]; [lia|]. exfalso.
      destruct pc as [|[|[|[|[|pc]]]]]; try lia;
        simpl in Hc; injection Hc as <-; simpl in Hsome.
      * destruct (I4 i t 3 Hi) as (txn & Htxn & Hdom); [lia|].
        unfold commit_transaction in Hsome. rewrite Htxn in Hsome.
        simpl in Hsome. rewrite lookup_delete_eq in Hsome.
        by destruct Hsome.
      * unfold delete in Hsome. rewrite H2 in Hsome by auto.
        simpl in Hsome. rewrite H2 in Hsome by auto. by destruct Hsome.
    + rewrite Hother in Hsome by done.
      destruct (I3 ident Hsome) as (j & pj & Hj & Hr).
      exists j, pj. split; [|done]. rewrite Hold; [done|]. intros ->.
      rewrite Hi in Hj. congruence.
  - intros j tj pj Hj Hr. destruct (decide (j = i)) as [->|Hji].
    + rewrite Hnew in Hj. injection Hj as <- <-.
      destruct pc as [|[|[|pc]]]; [..|lia];
        simpl in Hc; injection Hc as <-; simpl.
      * unfold start_transaction. rewrite H2 by auto. simpl.
        rewrite lookup_insert_eq. eexists. split; [done|].
        intros key [v Hv]. by rewrite lookup_empty in Hv.
      * destruct (I4 i t 1 Hi) as (txn & Htxn & Hdom); [lia|].
        unfold put. rewrite Htxn. simpl. rewrite lookup_insert_eq.
        eexists. split; [done|]. intros key Hk.
        destruct (decide (key = sim_key i)) as [|Hne]; [done|].
        rewrite lookup_insert_ne in Hk by done. by apply Hdom.
      * apply (I4 i t 2 Hi). lia.
    + rewrite Hold in Hj by done.
      destruct (I4 j tj pj Hj Hr) as (txn & Htxn & Hdom).
      exists txn. split; [|done]. rewrite Hother; [done|].
      apply (H1 j tj pj); [done..|lia].
  - intros a b ta pa tb pb Hab Ha Hb Hra Hrb.
    destruct (decide (a = i)) as [->|Hai], (decide (b = i)) as [->|Hbi].
    + done.
    + rewrite Hnew in Ha. rewrite Hold in Hb by done.
      assert (Hta : ta = t) by congruence. rewrite Hta. intros Heq.
      by apply (H1 b tb pb).
    + rewrite Hnew in Hb. rewrite Hold in Ha by done.
      assert (Htb : tb = t) by congruence. rewrite Htb.
      by apply (H1 a ta pa).
    + rewrite Hold in Ha, Hb by done. by apply (I5 a b ta pa tb pb).
Qed.

Lemma pool_inv_exec schedule s (p : pool) s' p' :
  pool_inv s p → exec simulate_calls schedule (s, p) = Some (s', p') →
  pool_inv s' p'.
Proof.
  revert s p. induction schedule as [|i schedule IH]; intros s p Hinv; simpl.
  - by intros [= <- <-].
  - destruct (step_at simulate_calls i (s, p)) as [[s1 p1]|] eqn:Hstep;
      [|done].
    apply IH. by apply (pool_inv_step i s p).
Qed.

(** The main block prints an empty dict as its final store state, for
    every number of threads, every assignment of thread identifiers that
    the interpreter may make (identifiers of ended threads may come
    back) and every interleaving of the threads' store calls: once all
    threads are joined, the store is empty and no transaction is open. *)
Theorem main_final_store_empty idents schedule s p :
  exec simulate_calls schedule (main_start idents) = Some (s, p) →
  all_joined simulate_calls p →
  s = init.
Proof.
  intros Hexec Hjoined.
  destruct (pool_inv_exec schedule _ _ s p (pool_inv_start idents) Hexec)
    as (_ & I1 & I3 & _).
  destruct s as [st T]. unfold init. simpl in *. f_equal.
  - apply map_empty. intros key.
    destruct (st !! key) eqn:E; [|done].
    destruct (I1 key) as (i & ident & Hi & _); [by rewrite E|].
    by apply Hjoined in Hi.
  - apply map_empty. intros ident.
    destruct (T !! ident) eqn:E; [|done].
    destruct (I3 ident) as (i & pc & Hi & Hr); [by rewrite E|].
    apply Hjoined in Hi. simpl in Hi. lia.
Qed.

Lemma main_final_store_empty_witness :
  ∃ p,
    exec simulate_calls
      [0; 1; 0; 1; 1; 0; 0; 1; 0; 2; 3; 1; 4; 3; 2; 4; 4; 2; 3; 3; 2; 2;
       4; 3; 4]
      (main_start [11; 12; 11; 13; 12])
    = Some (init, p).
Proof.
  destruct (exec simulate_calls
      [0; 1; 0; 1; 1; 0; 0; 1; 0; 2; 3; 1; 4; 3; 2; 4; 4; 2; 3; 3; 2; 2;
       4; 3; 4]
      (main_start [11; 12; 11; 13; 12])) as [[s p]|] eqn:Hexec.
  - exists p. f_equal. f_equal.
    apply (main_final_store_empty [11; 12; 11; 13; 12]
      [0; 1; 0; 1; 1; 0; 0; 1; 0; 2; 3; 1; 4; 3; 2; 4; 4; 2; 3; 3; 2; 2;
       4; 3; 4] s p Hexec).
    vm_compute in Hexec. injection Hexec as _ <-.
    intros i ident pc Hi.
    destruct i as [|[|[|[|[|i]]]]]; simpl in *; try congruence.
    by rewrite lookup_nil in Hi.
  - vm_compute in Hexec. discriminate.
Defined.
